(** * Contiguous-range compression of row indices (app.py)

    A verification of [get_contiguous_ranges], the helper of the dashboard
    that collapses a list of integer row indices into inclusive
    (start, end) ranges.

    Python integers are unbounded, so they are modelled by [Z]; a Python
    list of integers is a [list Z] and a list of 2-tuples a
    [list (Z * Z)].  Two embeddings are given:

    - a value-level one, [get_contiguous_ranges], in which the loop of the
      source is a left fold over [indices[1:]] with the three locals
      [ranges], [start] and [prev] as the loop state;
    - a store-level one, [PyHeap.get_contiguous_ranges], in which lists are
      mutable objects of a heap, [ranges.append] updates the heap in place,
      [indices[0]] can raise [IndexError], and the slice and the literal
      [[]] allocate fresh objects.

    The second is proved to compute the first.

    The module [Dashboard] embeds the script's uses of the helper: the rows
    selected by [Class], the ranges and the lines written in the Overview
    section, the Index Viewer and the hour column. *)

From Stdlib Require Import Sorting.Sorted.
From stdpp Require Import base numbers list list_numbers sorting gmap.
From Stdlib Require Import Ascii.
From stdpp Require Import strings pretty.

Local Open Scope Z_scope.

(** ** Value-level embedding *)

(** The locals of the function that live across loop iterations. *)
Record loop_state : Type := LoopState {
  ranges : list (Z * Z);
  start : Z;
  prev : Z
}.

(** One iteration of [for i in indices[1:]]:
<<
        if i == prev + 1:
            prev = i
        else:
            ranges.append((start, prev))
            start = prev = i
>> *)
Definition loop_body (st : loop_state) (i : Z) : loop_state :=
  if i =? prev st + 1
  then {| ranges := ranges st; start := start st; prev := i |}
  else {| ranges := ranges st ++ [(start st, prev st)]; start := i; prev := i |}.

(** The statement after the loop: [ranges.append((start, prev))], and the
    list that is then returned. *)
Definition close_range (st : loop_state) : list (Z * Z) :=
  ranges st ++ [(start st, prev st)].

(** [def get_contiguous_ranges(indices)].  [not indices] holds exactly for
    the empty list; otherwise [indices[0]] is the head and [indices[1:]] is
    [drop 1 indices]. *)
Definition get_contiguous_ranges (indices : list Z) : list (Z * Z) :=
  match indices with
  | [] => []
  | first :: _ =>
      close_range
        (foldl loop_body {| ranges := []; start := first; prev := first |}
               (drop 1 indices))
  end.

(** ** Notions used by the statements *)

(** The integers of the closed interval [[s, e]], in order: Python's
    [range(s, e + 1)].  It is empty when [e < s]. *)
Definition expand_range (r : Z * Z) : list Z :=
  seqZ r.1 (r.2 - r.1 + 1).

(** Every range expanded, concatenated in order. *)
Definition expand_ranges (rs : list (Z * Z)) : list Z :=
  rs ≫= expand_range.

(** [z] lies in one of the closed intervals of [rs]. *)
Definition in_ranges (z : Z) (rs : list (Z * Z)) : Prop :=
  ∃ r, r ∈ rs ∧ r.1 ≤ z ≤ r.2.

(** Sorted strictly ascending: every element is below its successor. *)
Definition strictly_ascending (xs : list Z) : Prop := Sorted Z.lt xs.

(** The three parts of the RangeList invariant. *)
Definition range_ok (r : Z * Z) : Prop := r.1 ≤ r.2.
Definition range_gap (r1 r2 : Z * Z) : Prop := r2.1 > r1.2 + 1.
Definition range_before (r1 r2 : Z * Z) : Prop := r1.2 < r2.1.

Record RangeList_wf (rs : list (Z * Z)) : Prop := {
  wf_ok : Forall range_ok rs;
  wf_ascending : StronglySorted range_before rs;
  wf_maximal : Sorted range_gap rs
}.

(** Position [j >= 1] of [xs] is a break when [xs[j]] is not [xs[j-1] + 1]. *)
Definition is_break (xs : list Z) (j : nat) : bool :=
  match xs !! (j - 1)%nat, xs !! j with
  | Some a, Some b => negb (b =? a + 1)
  | _, _ => false
  end.

(** The number of breaks among the positions [1 .. length xs - 1]. *)
Definition breaks (xs : list Z) : nat :=
  length (List.filter (is_break xs) (seq 1 (length xs - 1))).

(** ** The scan as the specification words it

    A single left-to-right pass that maintains the result so far, the start
    of the current range and the most recently seen value. *)
Fixpoint spec_scan (result : list (Z * Z)) (s p : Z) (rest : list Z)
  : list (Z * Z) :=
  match rest with
  | [] =>
      (* after the scan the pending range is appended *)
      result ++ [(s, p)]
  | i :: rest' =>
      if decide (i = p + 1)
      then (* the value extends the current range *)
        spec_scan result s i rest'
      else (* the current range is closed, a new one begins at [i] *)
        spec_scan (result ++ [(s, p)]) i i rest'
  end.

Definition compress_spec (xs : list Z) : list (Z * Z) :=
  match xs with
  | [] => []
  | x :: rest => spec_scan [] x x rest
  end.

(** ** Store-level embedding

    Lists are mutable heap objects reached through references.  A
    computation takes the heap and returns either a value or a raised
    exception, with the heap it leaves behind. *)
Module PyHeap.

Definition loc : Type := positive.

(** The two kinds of list the function handles. *)
Inductive pyobj : Type :=
  | IntList (l : list Z)
  | PairList (l : list (Z * Z)).

(** [Dangling] is raised on a reference with no object behind it, which no
    Python program can hold; it keeps the operations total. *)
Inductive exn : Type := IndexError | TypeError | Dangling.

Inductive outcome (A : Type) : Type :=
  | Ret (a : A)
  | Raise (e : exn).
Arguments Ret {A} a.
Arguments Raise {A} e.

Definition Py (A : Type) : Type :=
  gmap loc pyobj → outcome A * gmap loc pyobj.

#[global] Instance Py_ret : MRet Py := λ A a h, (Ret a, h).

#[global] Instance Py_bind : MBind Py := λ A B f m h,
  match m h with
  | (Ret a, h') => f a h'
  | (Raise e, h') => (Raise e, h')
  end.

(** A list display or a slice: a new object at an unused address. *)
Definition alloc (o : pyobj) : Py loc := λ h,
  let l := fresh (dom h) in (Ret l, <[l := o]> h).

(** [bool(indices)]: a list is true when it is not empty. *)
Definition truth (r : loc) : Py bool := λ h,
  match h !! r with
  | Some (IntList l) => (Ret (bool_decide (l ≠ [])), h)
  | Some (PairList l) => (Ret (bool_decide (l ≠ [])), h)
  | None => (Raise Dangling, h)
  end.

(** [indices[k]] for an integer result; out of range raises [IndexError]. *)
Definition getitem (r : loc) (k : nat) : Py Z := λ h,
  match h !! r with
  | Some (IntList l) =>
      match l !! k with
      | Some z => (Ret z, h)
      | None => (Raise IndexError, h)
      end
  | Some (PairList _) => (Raise TypeError, h)
  | None => (Raise Dangling, h)
  end.

(** [indices[k:]]: a copy of the tail, never an error. *)
Definition slice_from (r : loc) (k : nat) : Py loc := λ h,
  match h !! r with
  | Some (IntList l) => alloc (IntList (drop k l)) h
  | Some (PairList l) => alloc (PairList (drop k l)) h
  | None => (Raise Dangling, h)
  end.

(** [ranges.append(p)]: the object behind [r] is updated in place. *)
Definition append (r : loc) (p : Z * Z) : Py unit := λ h,
  match h !! r with
  | Some (PairList l) => (Ret (), <[r := PairList (l ++ [p])]> h)
  | Some (IntList _) => (Raise TypeError, h)
  | None => (Raise Dangling, h)
  end.

(** The body run on each element in turn, threading the loop locals. *)
Fixpoint iterate {S : Type} (body : S → Z → Py S) (st : S) (l : list Z)
  : Py S :=
  match l with
  | [] => mret st
  | i :: l' => st' ← body st i; iterate body st' l'
  end.

(** [for i in <r>: body].  The iterated object is the temporary made by the
    slice; the body holds no reference to it, so its elements are those it
    has when the loop is entered. *)
Definition for_in {S : Type} (r : loc) (body : S → Z → Py S) (st : S)
  : Py S := λ h,
  match h !! r with
  | Some (IntList l) => iterate body st l h
  | Some (PairList _) => (Raise TypeError, h)
  | None => (Raise Dangling, h)
  end.

(** The loop body; [ranges] is the reference held by the local of that
    name, [st] the locals [(start, prev)]. *)
Definition loop_body (ranges : loc) (st : Z * Z) (i : Z) : Py (Z * Z) :=
  if i =? st.2 + 1
  then mret (st.1, i)
  else _ ← append ranges (st.1, st.2); mret (i, i).

Definition get_contiguous_ranges (indices : loc) : Py loc :=
  b ← truth indices;
  if negb b
  then alloc (PairList [])
  else
    ranges ← alloc (PairList []);
    first ← getitem indices 0;
    rest ← slice_from indices 1;
    st ← for_in rest (loop_body ranges) (first, first);
    _ ← append ranges (st.1, st.2);
    mret ranges.

(** What a call leaves behind: the objects of [h] are unchanged in [h'],
    and [out] is an address [h] did not use. *)
Record frame (h h' : gmap loc pyobj) (out : loc) : Prop := {
  frame_fresh : out ∉ dom h;
  frame_same : ∀ l, l ∈ dom h → h' !! l = h !! l
}.

End PyHeap.

(** ** The callers: the sections of the dashboard that use the ranges

    The script keeps the uploaded table in [card], a pandas frame read by
    [read_csv] without an index column, so its rows carry the labels
    0, 1, ..., n-1.  The sections below read only the labels and the
    [Class] column, so a frame is the list of its rows in order, each a pair
    (label, Class). *)
Module Dashboard.

(** [card], from its [Class] column [cls] in row order. *)
Definition card (cls : list Z) : list (Z * Z) :=
  zip (seqZ 0 (Z.of_nat (length cls))) cls.

(** [df[df['Class'] == c]]: the rows whose [Class] is [c], labels kept. *)
Definition where_class (c : Z) (df : list (Z * Z)) : list (Z * Z) :=
  filter (λ row, row.2 = c) df.

(** [fraud = card[card['Class'] == 1]] and
    [normal = card[card['Class'] == 0]]. *)
Definition fraud (cls : list Z) : list (Z * Z) := where_class 1 (card cls).
Definition normal (cls : list Z) : list (Z * Z) := where_class 0 (card cls).

(** [df.index.tolist()]. *)
Definition index_tolist (df : list (Z * Z)) : list Z := df.*1.

(** The builtin [sorted] on a list of integers: the ascending
    rearrangement. *)
Definition sorted (l : list Z) : list Z := merge_sort Z.le l.

(** [fraud_ranges = get_contiguous_ranges(sorted(fraud.index.tolist()))]
    and the same for [normal]. *)
Definition fraud_ranges (cls : list Z) : list (Z * Z) :=
  get_contiguous_ranges (sorted (index_tolist (fraud cls))).
Definition normal_ranges (cls : list Z) : list (Z * Z) :=
  get_contiguous_ranges (sorted (index_tolist (normal cls))).

(** The f-string [f"{start} to {end}"]. *)
Definition format_range (r : Z * Z) : string :=
  pretty r.1 +:+ " to " +:+ pretty r.2.

(** The argument of [st.write]: a list of lines, or a text. *)
Inductive written : Type :=
  | Lines (ls : list string)
  | Text (s : string).

(** [[f"{start} to {end}" for start, end in rs] or msg]: the list when it
    is not empty, the message otherwise. *)
Definition write_ranges (rs : list (Z * Z)) (msg : string) : written :=
  match format_range <$> rs with
  | [] => Text msg
  | ls => Lines ls
  end.

(** The two metrics and the pie chart: [len(fraud)], [len(normal)]. *)
Definition metrics (cls : list Z) : nat * nat :=
  (length (fraud cls), length (normal cls)).

(** *** Index Viewer *)






(** *** The hour column

    [card['Hour'] = (card['Time'] // 3600) % 24], for a [Time] column of
    whole seconds: [//] and [%] round towards minus infinity, as [Z.div]
    and [Z.modulo] do for a positive divisor. *)
Definition hour (t : Z) : Z := (t `div` 3600) `mod` 24.

Definition Hour (times : list Z) : list Z := hour <$> times.

End Dashboard.

(** The number of integers in the closed interval of a range. *)
Definition range_size (r : Z * Z) : Z := r.2 - r.1 + 1.

(** The sizes of all ranges added up. *)
Definition total_size (rs : list (Z * Z)) : Z :=
  foldr (λ r acc, range_size r + acc) 0 rs.

(** Two consecutive ranges that could be written as one: the second starts
    right after the end of the first. *)
Definition mergeable (r1 r2 : Z * Z) : Prop := r2.1 = r1.2 + 1.

(** Whether a string holds a space character. *)
Fixpoint has_space (s : string) : bool :=
  match s with
  | EmptyString => false
  | String c s' => bool_decide (c = " "%char) || has_space s'
  end.

(** ** The cons-producing form of the scan

    A proof device: the ranges that remain to be emitted when the current
    range is [(s, p)] and [l] is still to be read. *)
Fixpoint runs (s p : Z) (l : list Z) : list (Z * Z) :=
  match l with
  | [] => [(s, p)]
  | i :: l' => if i =? p + 1 then runs s i l' else (s, p) :: runs i i l'
  end.

Lemma close_range_foldl (l : list Z) (st : loop_state) :
  close_range (foldl loop_body st l) = ranges st ++ runs (start st) (prev st) l.
Proof.
  revert st; induction l as [|i l IH]; intros st; simpl; [done|].
  rewrite IH. unfold loop_body.
  destruct (i =? prev st + 1); simpl; [done|].
  by rewrite <- app_assoc.
Qed.

Lemma get_contiguous_ranges_cons (x : Z) (l : list Z) :
  get_contiguous_ranges (x :: l) = runs x x l.
Proof.
  unfold get_contiguous_ranges. rewrite close_range_foldl. simpl.
  by rewrite drop_0.
Qed.

(** ** Properties of [runs] *)

Lemma runs_head (l : list Z) (s p : Z) :
  fst <$> head (runs s p l) = Some s.
Proof.
  revert p; induction l as [|i l IH]; intros p; simpl; [done|].
  destruct (i =? p + 1); [apply IH | reflexivity].
Qed.

Lemma runs_last (l : list Z) (s p : Z) :
  snd <$> last (runs s p l) = last (p :: l).
Proof.
  revert s p; induction l as [|i l IH]; intros s p; [done|].
  rewrite last_cons_cons. simpl runs.
  destruct (i =? p + 1); [apply IH|].
  specialize (IH i i). pose proof (runs_head l i i) as Hh.
  destruct (runs i i l) as [|r rs]; [done|].
  by rewrite last_cons_cons.
Qed.

Lemma runs_expand (l : list Z) (s p : Z) :
  s ≤ p → expand_ranges (runs s p l) = seqZ s (p - s + 1) ++ l.
Proof.
  revert s p; induction l as [|i l IH]; intros s p Hsp; simpl.
  - unfold expand_ranges, expand_range; simpl. by rewrite !app_nil_r.
  - destruct (Z.eqb_spec i (p + 1)) as [->|Hne].
    + rewrite IH by lia.
      replace (p + 1 - s + 1) with ((p - s + 1) + 1) by lia.
      rewrite seqZ_app by lia.
      replace (s + (p - s + 1)) with (p + 1) by lia.
      by rewrite <- app_assoc.
    + unfold expand_ranges in *; simpl. rewrite IH by lia.
      unfold expand_range at 1; simpl.
      by replace (i - i + 1) with 1 by lia.
Qed.

Lemma runs_ends (l : list Z) (s p : Z) (r : Z * Z) :
  r ∈ runs s p l → r.1 ∈ s :: l ∧ r.2 ∈ p :: l.
Proof.
  revert s p; induction l as [|i l IH]; intros s p; simpl.
  - intros ->%list_elem_of_singleton. simpl. split; apply list_elem_of_here.
  - destruct (i =? p + 1).
    + intros [H1 H2]%IH. rewrite !elem_of_cons in *. tauto.
    + intros [->|[H1 H2]%IH]%elem_of_cons; simpl;
        rewrite !elem_of_cons in *; tauto.
Qed.

Lemma runs_ok (l : list Z) (s p : Z) :
  s ≤ p → Sorted Z.lt (p :: l) → Forall range_ok (runs s p l).
Proof.
  revert s p; induction l as [|i l IH]; intros s p Hsp Hs; simpl.
  - by constructor.
  - apply Sorted_inv in Hs as [Hs Hd]. apply HdRel_inv in Hd.
    destruct (i =? p + 1).
    + apply IH; [lia | done].
    + constructor; [done|]. apply IH; [lia | done].
Qed.

Lemma runs_gap (l : list Z) (s p : Z) :
  Sorted Z.lt (p :: l) → Sorted range_gap (runs s p l).
Proof.
  revert s p; induction l as [|i l IH]; intros s p Hs; simpl.
  - by repeat constructor.
  - apply Sorted_inv in Hs as [Hs Hd]. apply HdRel_inv in Hd.
    destruct (Z.eqb_spec i (p + 1)) as [->|Hne].
    + by apply IH.
    + constructor; [by apply IH|].
      pose proof (runs_head l i i) as Hh.
      destruct (runs i i l) as [|[s' e'] rs]; [done|].
      simpl in Hh. injection Hh as ->.
      constructor. unfold range_gap; simpl. lia.
Qed.

Lemma ranges_after (rs : list (Z * Z)) (e : Z) :
  Forall range_ok rs → Sorted range_gap rs →
  HdRel (λ _ r, e < r.1) (e, e) rs → Forall (λ r, e < r.1) rs.
Proof.
  revert e; induction rs as [|r rs IH]; intros e Hok Hs Hd; [done|].
  apply Forall_cons in Hok as [Hr Hok].
  apply Sorted_inv in Hs as [Hs Hd'].
  apply HdRel_inv in Hd.
  constructor; [done|].
  eapply Forall_impl; [apply (IH r.2); try done|].
  - destruct rs as [|r' rs]; constructor.
    apply HdRel_inv in Hd'. unfold range_gap in Hd'. lia.
  - intros r' Hr'; simpl in *. unfold range_ok in Hr. lia.
Qed.

Lemma ranges_ascending (rs : list (Z * Z)) :
  Forall range_ok rs → Sorted range_gap rs → StronglySorted range_before rs.
Proof.
  induction rs as [|r rs IH]; intros Hok Hs; [constructor|].
  apply Forall_cons in Hok as [Hr Hok].
  apply Sorted_inv in Hs as [Hs Hd].
  constructor; [by apply IH|].
  apply (ranges_after rs r.2); try done.
  destruct rs as [|r' rs]; constructor.
  apply HdRel_inv in Hd. unfold range_gap in Hd. simpl. lia.
Qed.

Lemma in_ranges_expand (z : Z) (rs : list (Z * Z)) :
  in_ranges z rs ↔ z ∈ expand_ranges rs.
Proof.
  unfold in_ranges, expand_ranges. rewrite list_elem_of_bind.
  split; intros (r & H1 & H2); exists r.
  - split; [|done]. unfold expand_range. apply elem_of_seqZ. lia.
  - split; [done|]. unfold expand_range in H1. apply elem_of_seqZ in H1. lia.
Qed.

(** Expanding the ranges gives the input back, sorted or not. *)
Lemma expand_get_contiguous_ranges (xs : list Z) :
  expand_ranges (get_contiguous_ranges xs) = xs.
Proof.
  destruct xs as [|x l]; [done|].
  rewrite get_contiguous_ranges_cons, runs_expand by lia.
  replace (x - x + 1) with 1 by lia. done.
Qed.

(** ** Counting breaks *)

Lemma is_break_cons (a : Z) (ys : list Z) (j : nat) :
  (1 ≤ j)%nat → is_break (a :: ys) (S j) = is_break ys j.
Proof.
  intros Hj. destruct j as [|j]; [lia|].
  unfold is_break; simpl. by rewrite Nat.sub_0_r.
Qed.

Lemma filter_breaks_shift (a : Z) (ys : list Z) (n k : nat) :
  (1 ≤ k)%nat →
  length (List.filter (is_break (a :: ys)) (seq (S k) n)) =
  length (List.filter (is_break ys) (seq k n)).
Proof.
  revert k; induction n as [|n IH]; intros k Hk; [done|].
  cbn [seq List.filter]. rewrite is_break_cons by done.
  destruct (is_break ys k); cbn [length]; rewrite IH by lia; done.
Qed.

Lemma breaks_cons_cons (a b : Z) (l : list Z) :
  breaks (a :: b :: l) =
  ((if (b =? a + 1)%Z then 0 else 1) + breaks (b :: l))%nat.
Proof.
  unfold breaks. cbn [length]. rewrite !Nat.sub_succ, !Nat.sub_0_r.
  cbn [seq List.filter].
  replace (is_break (a :: b :: l) 1) with (negb (b =? a + 1)) by done.
  destruct (b =? a + 1); cbn [negb length];
    by rewrite filter_breaks_shift by lia.
Qed.

Lemma runs_length (l : list Z) (s p : Z) :
  length (runs s p l) = S (breaks (p :: l)).
Proof.
  revert s p; induction l as [|i l IH]; intros s p; [done|].
  rewrite breaks_cons_cons. simpl runs.
  destruct (i =? p + 1); simpl; by rewrite IH.
Qed.

Lemma runs_length_le (l : list Z) (s p : Z) :
  (length (runs s p l) ≤ S (length l))%nat.
Proof.
  revert s p; induction l as [|i l IH]; intros s p; [done|].
  simpl runs. destruct (i =? p + 1); simpl.
  - specialize (IH s i). lia.
  - specialize (IH i i). lia.
Qed.

(** ** The specification's scan in terms of [runs] *)

Lemma spec_scan_runs (l : list Z) (result : list (Z * Z)) (s p : Z) :
  spec_scan result s p l = result ++ runs s p l.
Proof.
  revert result s p; induction l as [|i l IH]; intros result s p; [done|].
  simpl. destruct (Z.eqb_spec i (p + 1)); case_decide; try lia.
  - apply IH.
  - rewrite IH. by rewrite <- app_assoc.
Qed.

(** ** The store-level function computes the value-level one *)

Section heap.
Implicit Types (h g : gmap PyHeap.loc PyHeap.pyobj) (r : PyHeap.loc).

Lemma fresh_lookup_ne h r (o : PyHeap.pyobj) :
  h !! r = Some o → r ≠ fresh (dom h).
Proof.
  intros Hr ->. apply (is_fresh (dom h)). apply elem_of_dom. eauto.
Qed.

(** The loop of the store-level function follows the fold of the
    value-level one; only the object behind [ranges] changes. *)
Lemma iterate_loop_body (l : list Z) g r (st : loop_state) :
  g !! r = Some (PyHeap.PairList (ranges st)) →
  ∃ g',
    PyHeap.iterate (PyHeap.loop_body r) (start st, prev st) l g =
      (PyHeap.Ret (start (foldl loop_body st l), prev (foldl loop_body st l)), g') ∧
    g' !! r = Some (PyHeap.PairList (ranges (foldl loop_body st l))) ∧
    ∀ k, k ≠ r → g' !! k = g !! k.
Proof.
  revert g st; induction l as [|i l IH]; intros g st Hr.
  - exists g. by repeat split.
  - cbn [PyHeap.iterate foldl]. unfold mbind, PyHeap.Py_bind at 1.
    unfold PyHeap.loop_body at 1. cbn [fst snd].
    destruct (i =? prev st + 1) eqn:E.
    + replace (loop_body st i)
        with {| ranges := ranges st; start := start st; prev := i |}
        by (unfold loop_body; by rewrite E).
      unfold mret, PyHeap.Py_ret at 1.
      apply (IH g {| ranges := ranges st; start := start st; prev := i |}).
      done.
    + replace (loop_body st i)
        with {| ranges := ranges st ++ [(start st, prev st)];
                start := i; prev := i |}
        by (unfold loop_body; by rewrite E).
      unfold mbind, PyHeap.Py_bind at 1, PyHeap.append. rewrite Hr.
      unfold mret, PyHeap.Py_ret at 1.
      set (g1 := <[r := PyHeap.PairList (ranges st ++ [(start st, prev st)])]> g).
      destruct (IH g1 {| ranges := ranges st ++ [(start st, prev st)];
                         start := i; prev := i |}) as (g' & Hrun & Hg' & Hk).
      { unfold g1. by rewrite lookup_insert_eq. }
      exists g'. repeat split; [done | done |].
      intros k Hne. rewrite Hk by done. unfold g1.
      by rewrite lookup_insert_ne.
Qed.

Lemma get_contiguous_ranges_run h r (xs : list Z) :
  h !! r = Some (PyHeap.IntList xs) →
  ∃ out h',
    PyHeap.get_contiguous_ranges r h = (PyHeap.Ret out, h') ∧
    h' !! out = Some (PyHeap.PairList (get_contiguous_ranges xs)) ∧
    PyHeap.frame h h' out.
Proof.
  intros Hr. pose proof (fresh_lookup_ne h r _ Hr) as Hne.
  unfold PyHeap.get_contiguous_ranges.
  unfold mbind, PyHeap.Py_bind at 1, PyHeap.truth. rewrite Hr.
  destruct xs as [|x l].
  - cbn [negb bool_decide decide_rel]. unfold PyHeap.alloc.
    eexists _, _. split; [reflexivity|]. split.
    + by rewrite lookup_insert_eq.
    + split; [apply is_fresh|].
      intros k Hk. rewrite lookup_insert_ne; [done|].
      intros <-. by apply (is_fresh (dom h)).
  - replace (negb (bool_decide (x :: l ≠ []))) with false
      by (by rewrite bool_decide_true).
    unfold mbind, PyHeap.Py_bind at 1, PyHeap.alloc.
    set (a := fresh (dom h)) in *.
    set (h1 := <[a := PyHeap.PairList []]> h).
    assert (h1 !! r = Some (PyHeap.IntList (x :: l))) as Hr1.
    { unfold h1. by rewrite lookup_insert_ne. }
    unfold mbind, PyHeap.Py_bind at 1, PyHeap.getitem. rewrite Hr1. cbn [lookup list_lookup].
    unfold mbind, PyHeap.Py_bind at 1, PyHeap.slice_from, PyHeap.alloc. rewrite Hr1.
    set (b := fresh (dom h1)).
    set (h2 := <[b := PyHeap.IntList (drop 1 (x :: l))]> h1).
    assert (b ≠ a) as Hba.
    { intros Hba. apply (is_fresh (dom h1)). fold b. rewrite Hba.
      unfold h1. rewrite dom_insert_L. set_solver. }
    unfold mbind, PyHeap.Py_bind at 1, PyHeap.for_in.
    replace (h2 !! b) with (Some (PyHeap.IntList (drop 1 (x :: l))))
      by (unfold h2; by rewrite lookup_insert_eq).
    destruct (iterate_loop_body (drop 1 (x :: l)) h2 a
                {| ranges := []; start := x; prev := x |})
      as (g' & Hrun & Hg' & Hk).
    { unfold h2, h1. rewrite lookup_insert_ne by done.
      by rewrite lookup_insert_eq. }
    cbn [start prev] in Hrun. rewrite Hrun.
    unfold mbind, PyHeap.Py_bind at 1, PyHeap.append. cbn [fst snd]. rewrite Hg'.
    eexists _, _. split; [reflexivity|]. split.
    + by rewrite lookup_insert_eq.
    + split; [apply is_fresh|].
      intros k Hkh.
      assert (k ≠ a) as Hka by (intros ->; by apply (is_fresh (dom h))).
      assert (k ≠ b) as Hkb.
      { intros ->. apply (is_fresh (dom h1)). fold b.
        unfold h1. rewrite dom_insert_L. set_solver. }
      rewrite lookup_insert_ne by done. rewrite Hk by done.
      unfold h2, h1. by rewrite !lookup_insert_ne by done.
Qed.

End heap.

(** ** The claims *)

(** C1.  For a strictly ascending input, an integer lies in one of the
    closed intervals [[start, end]] of the output exactly when it is an
    element of the input. *)
Theorem ranges_cover_input (xs : list Z) :
  strictly_ascending xs →
  ∀ z, in_ranges z (get_contiguous_ranges xs) ↔ z ∈ xs.
Proof.
  intros _ z. by rewrite in_ranges_expand, expand_get_contiguous_ranges.
Qed.

Lemma ranges_cover_input_witness :
  strictly_ascending [1; 2; 3; 7; 8; 10] ∧
  ∀ z, in_ranges z (get_contiguous_ranges [1; 2; 3; 7; 8; 10])
       ↔ z ∈ [1; 2; 3; 7; 8; 10].
Proof.
  split; [|apply ranges_cover_input];
    unfold strictly_ascending; repeat constructor; lia.
Defined.

(** C2.  For a strictly ascending input the output is a well-formed
    RangeList: every range has start <= end, the ranges are in ascending
    order, and any two consecutive ranges (s1,e1), (s2,e2) have
    s2 > e1 + 1. *)
Theorem ranges_well_formed (xs : list Z) :
  strictly_ascending xs → RangeList_wf (get_contiguous_ranges xs).
Proof.
  unfold strictly_ascending. intros Hs.
  assert (Forall range_ok (get_contiguous_ranges xs) ∧
          Sorted range_gap (get_contiguous_ranges xs)) as [Hok Hgap].
  { destruct xs as [|x l]; [by split; constructor|].
    rewrite get_contiguous_ranges_cons.
    split; [by apply runs_ok | by apply runs_gap]. }
  split; [done | by apply ranges_ascending | done].
Qed.

Lemma ranges_well_formed_witness :
  strictly_ascending [0; 1; 5; 6; 7; 9] ∧
  RangeList_wf (get_contiguous_ranges [0; 1; 5; 6; 7; 9]).
Proof.
  split; [|apply ranges_well_formed];
    unfold strictly_ascending; repeat constructor; lia.
Defined.

(** C3.  The function equals the scan of the specification: one pass that
    extends the current range on [i = prev + 1], otherwise closes it and
    restarts at [i], and appends the pending range at the end of every
    non-empty input. *)
Theorem get_contiguous_ranges_is_spec_scan (xs : list Z) :
  get_contiguous_ranges xs = compress_spec xs.
Proof.
  destruct xs as [|x l]; [done|].
  rewrite get_contiguous_ranges_cons. unfold compress_spec.
  by rewrite spec_scan_runs.
Qed.

(** C4.  The outputs on the example inputs: the empty list, [[5]] and
    [[1,2,3,7,8,10]]. *)
Theorem get_contiguous_ranges_examples :
  get_contiguous_ranges [] = [] ∧
  get_contiguous_ranges [5] = [(5, 5)] ∧
  get_contiguous_ranges [1; 2; 3; 7; 8; 10] = [(1, 3); (7, 8); (10, 10)].
Proof. repeat split; vm_compute; reflexivity. Qed.

(** C5.  For a strictly ascending input, expanding every output range into
    its integers, concatenating them in order and compressing again gives
    the same range list. *)
Theorem recompress_expanded (xs : list Z) :
  strictly_ascending xs →
  get_contiguous_ranges (expand_ranges (get_contiguous_ranges xs)) =
  get_contiguous_ranges xs.
Proof. intros _. by rewrite expand_get_contiguous_ranges. Qed.

Lemma recompress_expanded_witness :
  strictly_ascending [1; 2; 3; 7; 8; 10] ∧
  get_contiguous_ranges
    (expand_ranges (get_contiguous_ranges [1; 2; 3; 7; 8; 10])) =
  get_contiguous_ranges [1; 2; 3; 7; 8; 10].
Proof.
  split; [|apply recompress_expanded];
    unfold strictly_ascending; repeat constructor; lia.
Defined.

(** C6.  Called on any list of integers, sorted or not, empty or not, the
    function returns a list of ranges and raises nothing; in particular
    [indices[0]] never raises [IndexError]. *)
Theorem get_contiguous_ranges_never_raises
    (h : gmap PyHeap.loc PyHeap.pyobj) (r : PyHeap.loc) (xs : list Z) :
  h !! r = Some (PyHeap.IntList xs) →
  ∃ out h',
    PyHeap.get_contiguous_ranges r h = (PyHeap.Ret out, h') ∧
    h' !! out = Some (PyHeap.PairList (get_contiguous_ranges xs)).
Proof.
  intros Hr.
  destruct (get_contiguous_ranges_run h r xs Hr) as (out & h' & H1 & H2 & _).
  eauto.
Qed.

Lemma get_contiguous_ranges_never_raises_witness :
  ({[1%positive := PyHeap.IntList [3; 1; 2]]} : gmap PyHeap.loc PyHeap.pyobj)
    !! 1%positive = Some (PyHeap.IntList [3; 1; 2]) ∧
  ∃ out h',
    PyHeap.get_contiguous_ranges 1%positive
      {[1%positive := PyHeap.IntList [3; 1; 2]]} = (PyHeap.Ret out, h') ∧
    h' !! out = Some (PyHeap.PairList (get_contiguous_ranges [3; 1; 2])).
Proof.
  split; [reflexivity|].
  apply get_contiguous_ranges_never_raises. reflexivity.
Defined.

(** C7.  Two calls on lists with equal elements, in any two heaps, return
    lists of equal ranges; each call leaves every object that existed
    before it unchanged and returns a newly allocated list. *)
Theorem get_contiguous_ranges_pure
    (h1 h2 : gmap PyHeap.loc PyHeap.pyobj) (r1 r2 : PyHeap.loc)
    (xs : list Z) :
  h1 !! r1 = Some (PyHeap.IntList xs) →
  h2 !! r2 = Some (PyHeap.IntList xs) →
  ∃ out1 h1' out2 h2' rs,
    PyHeap.get_contiguous_ranges r1 h1 = (PyHeap.Ret out1, h1') ∧
    PyHeap.get_contiguous_ranges r2 h2 = (PyHeap.Ret out2, h2') ∧
    h1' !! out1 = Some (PyHeap.PairList rs) ∧
    h2' !! out2 = Some (PyHeap.PairList rs) ∧
    PyHeap.frame h1 h1' out1 ∧ PyHeap.frame h2 h2' out2.
Proof.
  intros Hr1 Hr2.
  destruct (get_contiguous_ranges_run h1 r1 xs Hr1) as (o1 & g1 & ? & ? & ?).
  destruct (get_contiguous_ranges_run h2 r2 xs Hr2) as (o2 & g2 & ? & ? & ?).
  exists o1, g1, o2, g2, (get_contiguous_ranges xs). done.
Qed.

Lemma get_contiguous_ranges_pure_witness :
  let h1 : gmap PyHeap.loc PyHeap.pyobj :=
    {[1%positive := PyHeap.IntList [1; 2; 4]]} in
  let h2 : gmap PyHeap.loc PyHeap.pyobj :=
    <[5%positive := PyHeap.IntList [1; 2; 4]]>
      {[1%positive := PyHeap.PairList [(0, 0)]]} in
  h1 !! 1%positive = Some (PyHeap.IntList [1; 2; 4]) ∧
  h2 !! 5%positive = Some (PyHeap.IntList [1; 2; 4]) ∧
  ∃ out1 h1' out2 h2' rs,
    PyHeap.get_contiguous_ranges 1%positive h1 = (PyHeap.Ret out1, h1') ∧
    PyHeap.get_contiguous_ranges 5%positive h2 = (PyHeap.Ret out2, h2') ∧
    h1' !! out1 = Some (PyHeap.PairList rs) ∧
    h2' !! out2 = Some (PyHeap.PairList rs) ∧
    PyHeap.frame h1 h1' out1 ∧ PyHeap.frame h2 h2' out2.
Proof.
  intros h1 h2. split; [reflexivity|]. split; [reflexivity|].
  apply (get_contiguous_ranges_pure h1 h2 _ _ [1; 2; 4]); reflexivity.
Defined.

(** C8.  For a non-empty input, sorted or not, the output is non-empty,
    its first range starts at the first element of the input and its last
    range ends at the last element. *)
Theorem first_start_last_end (xs : list Z) :
  xs ≠ [] →
  get_contiguous_ranges xs ≠ [] ∧
  fst <$> head (get_contiguous_ranges xs) = head xs ∧
  snd <$> last (get_contiguous_ranges xs) = last xs.
Proof.
  destruct xs as [|x l]; [done|]. intros _.
  rewrite get_contiguous_ranges_cons.
  pose proof (runs_head l x x) as Hh.
  split; [|split]; [|done|apply runs_last].
  intros E. by rewrite E in Hh.
Qed.

Lemma first_start_last_end_witness :
  [3; 1; 2] ≠ [] ∧
  get_contiguous_ranges [3; 1; 2] ≠ [] ∧
  fst <$> head (get_contiguous_ranges [3; 1; 2]) = head [3; 1; 2] ∧
  snd <$> last (get_contiguous_ranges [3; 1; 2]) = last [3; 1; 2].
Proof.
  split; [discriminate|]. apply first_start_last_end. discriminate.
Defined.

(** C9.  For a non-empty input the number of ranges is one more than the
    number of positions [j >= 1] with [xs[j]] different from
    [xs[j-1] + 1]; it is at least 1 and at most the length of the input. *)
Theorem range_count (xs : list Z) :
  xs ≠ [] →
  length (get_contiguous_ranges xs) = S (breaks xs) ∧
  (1 ≤ length (get_contiguous_ranges xs) ≤ length xs)%nat.
Proof.
  destruct xs as [|x l]; [done|]. intros _.
  rewrite get_contiguous_ranges_cons, runs_length.
  split; [done|]. split; [lia|].
  rewrite <- (runs_length l x x). apply runs_length_le.
Qed.

Lemma range_count_witness :
  let xs := [4; 5; 5; 2; 3] in
  xs ≠ [] ∧
  length (get_contiguous_ranges xs) = S (breaks xs) ∧
  (1 ≤ length (get_contiguous_ranges xs) ≤ length xs)%nat.
Proof.
  intros xs. split; [discriminate|]. apply range_count. discriminate.
Defined.

(** C10.  For any input, sorted or not, the start and the end of every
    output range are elements of the input. *)
Theorem range_ends_in_input (xs : list Z) :
  Forall (λ r, r.1 ∈ xs ∧ r.2 ∈ xs) (get_contiguous_ranges xs).
Proof.
  apply Forall_forall. intros r Hr.
  destruct xs as [|x l]; [by apply elem_of_nil in Hr|].
  rewrite get_contiguous_ranges_cons in Hr.
  apply runs_ends in Hr. done.
Qed.

(** ** Further properties of [get_contiguous_ranges] *)

Lemma runs_range_ok (l : list Z) (s p : Z) :
  s ≤ p → Forall range_ok (runs s p l).
Proof.
  revert s p; induction l as [|i l IH]; intros s p Hsp; simpl.
  - by constructor.
  - destruct (Z.eqb_spec i (p + 1)) as [->|Hne].
    + apply IH. lia.
    + constructor; [done|]. apply IH. lia.
Qed.

Lemma get_contiguous_ranges_ok (xs : list Z) :
  Forall range_ok (get_contiguous_ranges xs).
Proof.
  destruct xs as [|x l]; [constructor|].
  rewrite get_contiguous_ranges_cons. by apply runs_range_ok.
Qed.

Lemma get_contiguous_ranges_gap (xs : list Z) :
  Sorted Z.lt xs → Sorted range_gap (get_contiguous_ranges xs).
Proof.
  intros Hs. destruct xs as [|x l]; [constructor|].
  rewrite get_contiguous_ranges_cons. by apply runs_gap.
Qed.

Lemma runs_seqZ (k : nat) (s p : Z) (l : list Z) :
  runs s p (seqZ (p + 1) (Z.of_nat k) ++ l) = runs s (p + Z.of_nat k) l.
Proof.
  revert p; induction k as [|k IH]; intros p.
  - simpl. by rewrite Z.add_0_r.
  - rewrite seqZ_cons by lia. cbn [app runs]. rewrite Z.eqb_refl.
    replace (Z.pred (Z.of_nat (S k))) with (Z.of_nat k) by lia.
    replace (Z.succ (p + 1)) with (p + 1 + 1) by lia.
    rewrite IH. f_equal. lia.
Qed.

Lemma expand_ranges_cons (s e : Z) (rs : list (Z * Z)) :
  s ≤ e →
  expand_ranges ((s, e) :: rs) =
  s :: (seqZ (s + 1) (Z.of_nat (Z.to_nat (e - s))) ++ expand_ranges rs).
Proof.
  intros Hse. unfold expand_ranges. cbn [mbind list_bind].
  unfold expand_range at 1; cbn [fst snd].
  rewrite seqZ_cons by lia. rewrite Z2Nat.id by lia.
  cbn [app]. do 3 f_equal; lia.
Qed.

Lemma get_contiguous_ranges_expand_cons (s e : Z) (rs : list (Z * Z)) :
  s ≤ e →
  get_contiguous_ranges (expand_ranges ((s, e) :: rs)) =
  runs s e (expand_ranges rs).
Proof.
  intros Hse. rewrite expand_ranges_cons by done.
  rewrite get_contiguous_ranges_cons, runs_seqZ. f_equal. lia.
Qed.

Lemma total_size_expand (rs : list (Z * Z)) :
  Forall range_ok rs →
  total_size rs = Z.of_nat (length (expand_ranges rs)).
Proof.
  induction 1 as [|[s e] rs Hr _ IH]; [done|].
  unfold range_ok in Hr; simpl in Hr.
  unfold expand_ranges in *. cbn [mbind list_bind foldr total_size].
  rewrite length_app, Nat2Z.inj_add, <- IH.
  unfold expand_range at 1. rewrite length_seqZ.
  fold (total_size rs). unfold range_size; cbn [fst snd]. lia.
Qed.

Lemma runs_app (l1 l2 : list Z) (s p a i : Z) :
  last (p :: l1) = Some a → i ≠ a + 1 →
  runs s p (l1 ++ i :: l2) = runs s p l1 ++ runs i i l2.
Proof.
  revert s p; induction l1 as [|j l1 IH]; intros s p Hlast Hne.
  - injection Hlast as ->. simpl.
    by destruct (Z.eqb_spec i (a + 1)).
  - rewrite last_cons_cons in Hlast. cbn [app runs].
    destruct (j =? p + 1).
    + by apply IH.
    + cbn [app]. f_equal. by apply IH.
Qed.

Lemma ranges_no_overlap (rs : list (Z * Z)) (r1 r2 : Z * Z) (z : Z) :
  Forall range_ok rs → StronglySorted range_before rs →
  r1 ∈ rs → r2 ∈ rs → r1.1 ≤ z ≤ r1.2 → r2.1 ≤ z ≤ r2.2 → r1 = r2.
Proof.
  intros Hok Hs. revert Hok.
  induction Hs as [|r rs Hs IH Hall]; intros Hok H1 H2 Hz1 Hz2.
  - by apply elem_of_nil in H1.
  - apply Forall_cons in Hok as [_ Hok].
    rewrite Forall_forall in Hall. unfold range_before in Hall.
    apply elem_of_cons in H1 as [->|H1], H2 as [->|H2]; [done| | |by apply IH].
    + specialize (Hall _ H2). lia.
    + specialize (Hall _ H1). lia.
Qed.

(** X1.  Every range of the output has start <= end, whatever the input:
    sorted or not, with or without repeated values. *)
Theorem ranges_start_le_end (xs : list Z) :
  Forall (λ r, r.1 ≤ r.2) (get_contiguous_ranges xs).
Proof. apply get_contiguous_ranges_ok. Qed.

(** X2.  Expanding every output range into its integers and concatenating
    them in order gives back the input list itself, for every input: no
    element is lost, added or moved. *)
Theorem expand_ranges_inverse (xs : list Z) :
  expand_ranges (get_contiguous_ranges xs) = xs.
Proof. apply expand_get_contiguous_ranges. Qed.

(** X3.  A list of ranges with start <= end in which no range starts right
    after the end of the one before it is what the function returns on its
    expansion: such range lists are fixed by expanding and compressing. *)
Theorem compress_expanded_ranges (rs : list (Z * Z)) :
  Forall range_ok rs →
  Sorted (λ r1 r2, ¬ mergeable r1 r2) rs →
  get_contiguous_ranges (expand_ranges rs) = rs.
Proof.
  induction rs as [|[s e] rs IH]; intros Hok Hs; [done|].
  apply Forall_cons in Hok as [Hse Hok].
  apply Sorted_inv in Hs as [Hs Hd].
  unfold range_ok in Hse; simpl in Hse.
  rewrite get_contiguous_ranges_expand_cons by done.
  specialize (IH Hok Hs).
  destruct rs as [|[s2 e2] rs]; [done|].
  apply Forall_cons in Hok as [Hse2 _].
  unfold range_ok in Hse2; simpl in Hse2.
  apply HdRel_inv in Hd. unfold mergeable in Hd; simpl in Hd.
  rewrite get_contiguous_ranges_expand_cons in IH by done.
  rewrite expand_ranges_cons by done. cbn [runs].
  destruct (Z.eqb_spec s2 (e + 1)); [done|].
  f_equal. rewrite runs_seqZ, <- IH. f_equal. lia.
Qed.

Lemma compress_expanded_ranges_witness :
  Forall range_ok [(1, 3); (7, 8); (10, 10); (5, 6)] ∧
  Sorted (λ r1 r2, ¬ mergeable r1 r2) [(1, 3); (7, 8); (10, 10); (5, 6)] ∧
  get_contiguous_ranges (expand_ranges [(1, 3); (7, 8); (10, 10); (5, 6)]) =
  [(1, 3); (7, 8); (10, 10); (5, 6)].
Proof.
  assert (Forall range_ok [(1, 3); (7, 8); (10, 10); (5, 6)]) as Hok
    by (repeat constructor; unfold range_ok; simpl; lia).
  assert (Sorted (λ r1 r2, ¬ mergeable r1 r2)
            [(1, 3); (7, 8); (10, 10); (5, 6)]) as Hs
    by (repeat constructor; unfold mergeable; simpl; lia).
  split; [exact Hok|]. split; [exact Hs|].
  exact (compress_expanded_ranges _ Hok Hs).
Defined.

(** X4.  The sizes [end - start + 1] of the output ranges add up to the
    length of the input, for every input. *)
Theorem total_size_is_length (xs : list Z) :
  total_size (get_contiguous_ranges xs) = Z.of_nat (length xs).
Proof.
  rewrite total_size_expand by apply get_contiguous_ranges_ok.
  by rewrite expand_get_contiguous_ranges.
Qed.

(** X5.  When the first element of [ys] is not the last element of [xs]
    plus one, the ranges of [xs ++ ys] are the ranges of [xs] followed by
    the ranges of [ys]. *)
Theorem get_contiguous_ranges_app (xs ys : list Z) (a b : Z) :
  last xs = Some a → head ys = Some b → b ≠ a + 1 →
  get_contiguous_ranges (xs ++ ys) =
  get_contiguous_ranges xs ++ get_contiguous_ranges ys.
Proof.
  intros Hlast Hhead Hne.
  destruct xs as [|x l1]; [done|]. destruct ys as [|i l2]; [done|].
  injection Hhead as ->.
  cbn [app]. rewrite !get_contiguous_ranges_cons.
  by apply (runs_app l1 l2 x x a).
Qed.

Lemma get_contiguous_ranges_app_witness :
  last [4; 5; 6] = Some 6 ∧ head [2; 3; 9] = Some 2 ∧ 2 ≠ 6 + 1 ∧
  get_contiguous_ranges ([4; 5; 6] ++ [2; 3; 9]) =
  get_contiguous_ranges [4; 5; 6] ++ get_contiguous_ranges [2; 3; 9].
Proof.
  split; [reflexivity|]. split; [reflexivity|]. split; [lia|].
  apply (get_contiguous_ranges_app _ _ 6 2); [reflexivity | reflexivity | lia].
Defined.

(** X6.  For a strictly ascending input no two output ranges overlap: an
    integer lies in at most one of them. *)
Theorem ranges_disjoint (xs : list Z) (r1 r2 : Z * Z) (z : Z) :
  strictly_ascending xs →
  r1 ∈ get_contiguous_ranges xs → r2 ∈ get_contiguous_ranges xs →
  r1.1 ≤ z ≤ r1.2 → r2.1 ≤ z ≤ r2.2 → r1 = r2.
Proof.
  intros Hs. apply ranges_no_overlap.
  - apply get_contiguous_ranges_ok.
  - apply ranges_ascending; [apply get_contiguous_ranges_ok|].
    by apply get_contiguous_ranges_gap.
Qed.

Lemma ranges_disjoint_witness :
  strictly_ascending [1; 2; 3; 7; 8; 10] ∧
  (7, 8) ∈ get_contiguous_ranges [1; 2; 3; 7; 8; 10] ∧
  (7, 8).1 ≤ 8 ≤ (7, 8).2 ∧
  (7, 8) = (7, 8).
Proof.
  assert (strictly_ascending [1; 2; 3; 7; 8; 10]) as Hs
    by (unfold strictly_ascending; repeat constructor; lia).
  assert ((7, 8) ∈ get_contiguous_ranges [1; 2; 3; 7; 8; 10]) as Hin
    by (vm_compute; apply list_elem_of_further, list_elem_of_here).
  assert ((7, 8).1 ≤ 8 ≤ (7, 8).2) as Hz by (simpl; lia).
  split; [exact Hs|]. split; [exact Hin|]. split; [exact Hz|].
  exact (ranges_disjoint _ (7, 8) (7, 8) 8 Hs Hin Hin Hz Hz).
Defined.

(** ** The dashboard sections *)

Lemma zip_seqZ_cons (m x : Z) (l : list Z) :
  zip (seqZ m (Z.of_nat (length (x :: l)))) (x :: l) =
  (m, x) :: zip (seqZ (m + 1) (Z.of_nat (length l))) l.
Proof.
  rewrite seqZ_cons by (simpl; lia). cbn [zip zip_with length].
  by replace (Z.pred (Z.of_nat (S (length l)))) with (Z.of_nat (length l))
    by lia.
Qed.

Lemma lookup_card (cls : list Z) (k : nat) :
  Dashboard.card cls !! k = (λ c, (Z.of_nat k, c)) <$> cls !! k.
Proof.
  unfold Dashboard.card.
  destruct (cls !! k) as [c|] eqn:Hk; simpl.
  - apply lookup_zip_Some. split; [|done].
    apply lookup_lt_Some in Hk. by rewrite lookup_seqZ_lt by lia.
  - apply lookup_zip_None. right. done.
Qed.

Lemma elem_of_card (cls : list Z) (i c : Z) :
  (i, c) ∈ Dashboard.card cls ↔ ∃ k, i = Z.of_nat k ∧ cls !! k = Some c.
Proof.
  rewrite list_elem_of_lookup. split.
  - intros [k Hk]. exists k. rewrite lookup_card in Hk.
    destruct (cls !! k); simplify_eq/=. done.
  - intros (k & -> & Hk). exists k. by rewrite lookup_card, Hk.
Qed.

Lemma elem_of_class_index (cls : list Z) (c i : Z) :
  i ∈ Dashboard.index_tolist (Dashboard.where_class c (Dashboard.card cls))
  ↔ ∃ k, i = Z.of_nat k ∧ cls !! k = Some c.
Proof.
  unfold Dashboard.index_tolist, Dashboard.where_class.
  rewrite list_elem_of_fmap. split.
  - intros ([i' c'] & -> & [Hc Hin]%list_elem_of_filter).
    simpl in *. subst c'. by apply elem_of_card.
  - intros Hk%elem_of_card. exists (i, c). split; [done|].
    by apply list_elem_of_filter.
Qed.

Lemma class_index_sorted_from (c : Z) (l : list Z) (m : Z) :
  StronglySorted Z.lt
    (filter (λ row : Z * Z, row.2 = c)
            (zip (seqZ m (Z.of_nat (length l))) l)).*1 ∧
  Forall (Z.le m)
    (filter (λ row : Z * Z, row.2 = c)
            (zip (seqZ m (Z.of_nat (length l))) l)).*1.
Proof.
  revert m; induction l as [|x l IH]; intros m.
  - split; constructor.
  - rewrite zip_seqZ_cons. destruct (IH (m + 1)) as [Hs Hall].
    assert (Forall (Z.lt m)
      (filter (λ row : Z * Z, row.2 = c)
              (zip (seqZ (m + 1) (Z.of_nat (length l))) l)).*1) as Hlt.
    { eapply Forall_impl; [exact Hall|]. intros; simpl in *; lia. }
    rewrite filter_cons. destruct (decide ((m, x).2 = c)).
    + cbn [fmap list_fmap fst]. split.
      * by constructor.
      * constructor; [lia|]. eapply Forall_impl; [exact Hall|].
        intros; simpl in *; lia.
    + split; [done|]. eapply Forall_impl; [exact Hall|].
      intros; simpl in *; lia.
Qed.

Lemma class_index_ascending (cls : list Z) (c : Z) :
  Sorted Z.lt
    (Dashboard.index_tolist (Dashboard.where_class c (Dashboard.card cls))).
Proof.
  apply StronglySorted_Sorted.
  apply (class_index_sorted_from c cls 0).
Qed.

Lemma sorted_ascending (l : list Z) :
  Sorted Z.lt l → Dashboard.sorted l = l.
Proof.
  intros Hs. unfold Dashboard.sorted.
  apply (Sorted_unique Z.le).
  - apply Sorted_merge_sort. apply _.
  - clear -Hs. induction Hs as [|x l Hs IH Hd]; constructor; [done|].
    destruct Hd; constructor. lia.
  - apply merge_sort_Permutation.
Qed.

Lemma class_ranges_in (cls : list Z) (c i : Z) :
  in_ranges i
    (get_contiguous_ranges
       (Dashboard.sorted
          (Dashboard.index_tolist
             (Dashboard.where_class c (Dashboard.card cls)))))
  ↔ ∃ k, i = Z.of_nat k ∧ cls !! k = Some c.
Proof.
  rewrite in_ranges_expand, expand_get_contiguous_ranges.
  rewrite sorted_ascending by apply class_index_ascending.
  apply elem_of_class_index.
Qed.


Lemma class_ranges_nil (cls : list Z) (c : Z) :
  get_contiguous_ranges
    (Dashboard.sorted
       (Dashboard.index_tolist
          (Dashboard.where_class c (Dashboard.card cls)))) = []
  ↔ c ∉ cls.
Proof.
  split.
  - intros Hnil [k Hk]%list_elem_of_lookup.
    assert (in_ranges (Z.of_nat k) []) as (r & Hr & _).
    { rewrite <- Hnil. apply class_ranges_in. eauto. }
    by apply elem_of_nil in Hr.
  - intros Hc.
    pose proof (get_contiguous_ranges_ok
      (Dashboard.sorted (Dashboard.index_tolist
         (Dashboard.where_class c (Dashboard.card cls))))) as Hok.
    pose proof (class_ranges_in cls c) as Hin.
    destruct (get_contiguous_ranges _) as [|r rs]; [done|].
    apply Forall_cons in Hok as [Hr _]. unfold range_ok in Hr.
    destruct (Hin r.1) as [(k & _ & Hk) _].
    { exists r. split; [apply list_elem_of_here | lia]. }
    destruct Hc. apply list_elem_of_lookup. eauto.
Qed.

Lemma class_count (df : list (Z * Z)) :
  (length (Dashboard.where_class 1 df) + length (Dashboard.where_class 0 df)
     ≤ length df)%nat ∧
  ((length (Dashboard.where_class 1 df) + length (Dashboard.where_class 0 df)
     = length df)%nat
   ↔ Forall (λ row, row.2 = 0 ∨ row.2 = 1) df).
Proof.
  unfold Dashboard.where_class.
  induction df as [|row df IH]; [by split|].
  destruct row as [i c], IH as [IHle IHeq].
  rewrite !filter_cons, Forall_cons. cbn [snd].
  destruct (decide (c = 1)) as [H1|H1], (decide (c = 0)) as [H0|H0];
    cbn [length]; (split; [lia|]); rewrite <- IHeq; split; lia.
Qed.








(** X12.  The Overview section writes the message exactly when no row has
    the class, and otherwise one line per range, in order. *)
Theorem write_ranges_message (cls : list Z) (msg1 msg0 : string) :
  Dashboard.write_ranges (Dashboard.fraud_ranges cls) msg1 =
    (if bool_decide (1 ∈ cls)
     then Dashboard.Lines
            (Dashboard.format_range <$> Dashboard.fraud_ranges cls)
     else Dashboard.Text msg1) ∧
  Dashboard.write_ranges (Dashboard.normal_ranges cls) msg0 =
    (if bool_decide (0 ∈ cls)
     then Dashboard.Lines
            (Dashboard.format_range <$> Dashboard.normal_ranges cls)
     else Dashboard.Text msg0).
Proof.
  unfold Dashboard.write_ranges, Dashboard.fraud_ranges,
    Dashboard.normal_ranges, Dashboard.fraud, Dashboard.normal.
  split.
  - pose proof (class_ranges_nil cls 1) as Hnil.
    destruct (get_contiguous_ranges _) as [|r rs]; case_bool_decide;
      try done; [by apply Hnil in H | by destruct Hnil as [_ Hnil];
                                      specialize (Hnil H)].
  - pose proof (class_ranges_nil cls 0) as Hnil.
    destruct (get_contiguous_ranges _) as [|r rs]; case_bool_decide;
      try done; [by apply Hnil in H | by destruct Hnil as [_ Hnil];
                                      specialize (Hnil H)].
Qed.

(** X13.  The two metrics agree with the ranges shown under them: the
    sizes of the fraud ranges add up to [len(fraud)], those of the normal
    ranges to [len(normal)]. *)
Theorem metrics_match_ranges (cls : list Z) :
  total_size (Dashboard.fraud_ranges cls) =
    Z.of_nat (Dashboard.metrics cls).1 ∧
  total_size (Dashboard.normal_ranges cls) =
    Z.of_nat (Dashboard.metrics cls).2.
Proof.
  unfold Dashboard.fraud_ranges, Dashboard.normal_ranges, Dashboard.metrics.
  cbn [fst snd].
  rewrite !total_size_expand, !expand_get_contiguous_ranges
    by apply get_contiguous_ranges_ok.
  unfold Dashboard.sorted, Dashboard.index_tolist.
  by rewrite !merge_sort_Permutation, !length_fmap.
Qed.

(** X14.  The two counts of the pie chart never exceed the number of rows
    together, and they add up to it exactly when every [Class] value is 0
    or 1. *)
Theorem metrics_total (cls : list Z) :
  ((Dashboard.metrics cls).1 + (Dashboard.metrics cls).2 ≤ length cls)%nat ∧
  (((Dashboard.metrics cls).1 + (Dashboard.metrics cls).2 = length cls)%nat
   ↔ Forall (λ c, c = 0 ∨ c = 1) cls).
Proof.
  unfold Dashboard.metrics, Dashboard.fraud, Dashboard.normal. cbn [fst snd].
  pose proof (class_count (Dashboard.card cls)) as [Hle Heq].
  assert (length (Dashboard.card cls) = length cls) as Hlen.
  { unfold Dashboard.card. rewrite length_zip, length_seqZ. lia. }
  assert ((Dashboard.card cls).*2 = cls) as Hsnd.
  { unfold Dashboard.card. apply snd_zip. rewrite length_seqZ. lia. }
  rewrite Hlen in Hle, Heq. split; [done|].
  rewrite Heq. rewrite <- Hsnd at 2. by rewrite Forall_fmap.
Qed.




(** X17.  The hour column has one entry per row; each entry is between 0
    and 23 and is the hour of the day of the row's time: the time modulo
    86400 seconds lies in the 3600 seconds of that hour. *)
Theorem Hour_is_hour_of_day (times : list Z) :
  Forall2 (λ t h, 0 ≤ h < 24 ∧
                  3600 * h ≤ t `mod` 86400 < 3600 * (h + 1))
          times (Dashboard.Hour times).
Proof.
  unfold Dashboard.Hour. apply Forall2_fmap_r, Forall_Forall2_diag.
  apply Forall_forall. intros t _. unfold Dashboard.hour.
  pose proof (Z.div_mod t 3600 ltac:(lia)) as Ht.
  pose proof (Z.mod_pos_bound t 3600 ltac:(lia)) as Hr.
  pose proof (Z.div_mod (t `div` 3600) 24 ltac:(lia)) as Hq.
  pose proof (Z.mod_pos_bound (t `div` 3600) 24 ltac:(lia)) as Hh.
  split; [done|].
  rewrite <- (Z.mod_unique_pos t 86400 ((t `div` 3600) `div` 24)
             (3600 * ((t `div` 3600) `mod` 24) + t `mod` 3600)); lia.
Qed.

(** *** The written lines *)

Lemma has_space_pretty_N_go (x : N) (s : string) :
  has_space (pretty_N_go x s) = has_space s.
Proof.
  revert s. induction (N.lt_wf_0 x) as [x _ IH]; intros s.
  assert (x = 0 ∨ 0 < x)%N as [->|Hx] by lia.
  - by rewrite pretty_N_go_0.
  - rewrite pretty_N_go_step by done. rewrite IH by (by apply N.div_lt).
    cbn [has_space]. unfold pretty_N_char. by repeat case_match.
Qed.

Lemma has_space_pretty_Z (z : Z) : has_space (pretty z) = false.
Proof.
  assert (∀ p : positive, has_space (pretty p) = false) as Hp.
  { intros p. unfold pretty, pretty_positive, pretty, pretty_N.
    case_decide; [done|]. by rewrite has_space_pretty_N_go. }
  destruct z as [|p|p]; [done|apply Hp|].
  change (has_space (String "-" (pretty p)) = false). cbn [has_space].
  rewrite bool_decide_false by done. apply Hp.
Qed.

Lemma split_at_space (s1 s2 t1 t2 : string) :
  has_space s1 = false → has_space s2 = false →
  s1 +:+ String " " t1 = s2 +:+ String " " t2 → s1 = s2 ∧ t1 = t2.
Proof.
  revert s2; induction s1 as [|c1 s1 IH]; intros [|c2 s2];
    cbn [String.append has_space]; intros H1 H2 Heq.
  - by injection Heq as ->.
  - injection Heq as <- _. by rewrite bool_decide_true in H2.
  - injection Heq as -> _. by rewrite bool_decide_true in H1.
  - injection Heq as -> Heq.
    apply orb_false_iff in H1 as [_ H1], H2 as [_ H2].
    destruct (IH s2 H1 H2 Heq) as [-> ->]. done.
Qed.

(** X18.  Two ranges are written as the same line only when they are the
    same range: the text of a line determines its start and its end. *)
Theorem format_range_inj (r1 r2 : Z * Z) :
  Dashboard.format_range r1 = Dashboard.format_range r2 → r1 = r2.
Proof.
  unfold Dashboard.format_range. intros Heq.
  apply (split_at_space _ _ ("to " +:+ pretty r1.2) ("to " +:+ pretty r2.2))
    in Heq as [H1 H2]; [|apply has_space_pretty_Z..].
  injection H2 as H2. change (pretty r1.2 = pretty r2.2) in H2.
  apply (inj pretty) in H1. apply (inj pretty) in H2.
  destruct r1, r2; simpl in *; congruence.
Qed.

Lemma format_range_inj_witness :
  Dashboard.format_range (7, 8) = Dashboard.format_range (7, 8) ∧
  (7, 8) = (7, 8).
Proof.
  split; [reflexivity|]. apply format_range_inj. reflexivity.
Defined.

(** *** Concatenation when the two lists are adjacent *)

Lemma runs_start (l : list Z) (s s0 q e : Z) (back : list (Z * Z)) :
  runs s0 q l = (s0, e) :: back → runs s q l = (s, e) :: back.
Proof.
  revert q; induction l as [|i l IH]; intros q; simpl.
  - by intros [= -> <-].
  - destruct (i =? q + 1); [apply IH|]. by intros [= -> <-].
Qed.

Lemma runs_app_adjacent (l1 l2 : list Z) (s p s1 a e2 : Z)
    (front back : list (Z * Z)) :
  runs s p l1 = front ++ [(s1, a)] →
  runs (a + 1) (a + 1) l2 = (a + 1, e2) :: back →
  runs s p (l1 ++ (a + 1) :: l2) = front ++ (s1, e2) :: back.
Proof.
  intros H1 H2. revert s p front H1.
  induction l1 as [|j l1 IH]; intros s p front H1.
  - simpl in H1. destruct front as [|r [|r' front]]; simplify_eq/=.
    rewrite Z.eqb_refl. by apply (runs_start l2 s1 (a + 1)).
  - cbn [app runs] in *. destruct (j =? p + 1); [by apply IH|].
    destruct front as [|r front].
    + simpl in H1. injection H1 as _ _ H1.
      pose proof (runs_head l1 j j) as Hh. by rewrite H1 in Hh.
    + simpl in H1. injection H1 as <- H1. simpl. f_equal. by apply IH.
Qed.

(** X19.  When [ys] starts right after the last element of [xs], the last
    range of [xs] and the first range of [ys] become one range of
    [xs ++ ys]; the other ranges are kept. *)
Theorem get_contiguous_ranges_app_adjacent
    (xs ys : list Z) (s1 a e2 : Z) (front back : list (Z * Z)) :
  get_contiguous_ranges xs = front ++ [(s1, a)] →
  get_contiguous_ranges ys = (a + 1, e2) :: back →
  get_contiguous_ranges (xs ++ ys) = front ++ (s1, e2) :: back.
Proof.
  intros H1 H2.
  destruct xs as [|x l1]; [by destruct front|].
  destruct ys as [|i l2]; [done|].
  rewrite get_contiguous_ranges_cons in H1, H2.
  pose proof (runs_head l2 i i) as Hi. rewrite H2 in Hi.
  injection Hi as Hi. subst i.
  cbn [app]. rewrite get_contiguous_ranges_cons.
  by apply runs_app_adjacent.
Qed.

Lemma get_contiguous_ranges_app_adjacent_witness :
  get_contiguous_ranges [1; 2; 7; 8] = [(1, 2)] ++ [(7, 8)] ∧
  get_contiguous_ranges [9; 10; 20] = (8 + 1, 10) :: [(20, 20)] ∧
  get_contiguous_ranges ([1; 2; 7; 8] ++ [9; 10; 20]) =
    [(1, 2)] ++ (7, 10) :: [(20, 20)].
Proof.
  split; [reflexivity|]. split; [reflexivity|].
  apply (get_contiguous_ranges_app_adjacent _ _ 7 8 10); reflexivity.
Defined.
